(** * Segment intersection: [docs/js/utils/mathy.js]

    A shallow embedding of the class [Mathy] (its two static methods
    [calculateIntersection] and [lerp]) and the properties of the
    specification that concern it.

    JavaScript numbers are IEEE 754 binary64 values.  The code is written
    once, over an interface [Number] of the arithmetic it uses, and read at
    two instances:
    - [float64], the kernel's primitive binary64 floats: what the code
      computes when it runs;
    - [exactQ], the rationals: the "exact arithmetic" that some properties
      of the specification are stated over. *)

From Stdlib Require Import Bool ZArith QArith Qfield Lia.
From Stdlib Require Import Floats.

Set Implicit Arguments.

Declare Scope num_scope.
Delimit Scope num_scope with num.

(** ** The arithmetic the code uses *)

(** [leb] is JavaScript's [<=] on numbers and [eqb] its [===] on numbers;
    [>=] and [!==] are derived below. *)
Class Number (num : Type) : Type := {
  add : num -> num -> num;
  sub : num -> num -> num;
  mul : num -> num -> num;
  div : num -> num -> num;
  leb : num -> num -> bool;
  eqb : num -> num -> bool;
  zero : num;
  one : num
}.

Definition geb {num : Type} `{Number num} (a b : num) : bool := leb b a.
Definition neqb {num : Type} `{Number num} (a b : num) : bool := negb (eqb a b).

Infix "+" := add : num_scope.
Infix "-" := sub : num_scope.
Infix "*" := mul : num_scope.
Infix "/" := div : num_scope.
Infix "<=?" := leb : num_scope.
Infix ">=?" := geb (at level 70) : num_scope.
Infix "!==" := neqb (at level 70) : num_scope.

(** IEEE 754 binary64, as JavaScript has it: [x / 0] is an infinity or a
    NaN, every comparison with a NaN is false, and [-0 === 0]. *)
#[export] Instance float64 : Number float := {|
  add := PrimFloat.add;
  sub := PrimFloat.sub;
  mul := PrimFloat.mul;
  div := PrimFloat.div;
  leb := PrimFloat.leb;
  eqb := PrimFloat.eqb;
  zero := 0%float;
  one := 1%float
|}.

(** Exact rational arithmetic.  [Qdiv a 0] is [0]; no property below
    relies on a division by zero. *)
#[export] Instance exactQ : Number Q := {|
  add := Qplus;
  sub := Qminus;
  mul := Qmult;
  div := Qdiv;
  leb := Qle_bool;
  eqb := Qeq_bool;
  zero := 0%Q;
  one := 1%Q
|}.

(** ** Data model *)

(** A point [{x, y}]. *)
Record Point (num : Type) : Type := mkPoint { x : num; y : num }.

(** A segment is the array of its two end points: [AB[0]] is [fst AB] and
    [AB[1]] is [snd AB]. *)
Definition Segment (num : Type) : Type := (Point num * Point num)%type.

(** ** The class [Mathy] *)

Section Mathy.
Context {num : Type} `{Number num}.
Local Open Scope num_scope.

(** [static lerp(A, B, t)] *)
Definition lerp (A B t : num) : num := A + (B - A) * t.

Section Coefficients.
Variables AB CD : Segment num.

Let AX := x (fst AB).
Let AY := y (fst AB).
Let BX := x (snd AB).
Let BY := y (snd AB).
Let CX := x (fst CD).
Let CY := y (fst CD).
Let DX := x (snd CD).
Let DY := y (snd CD).

Definition tNumerator : num :=
  AY * DX -
  CY * DX -
  AY * CX +
  CY * CX -
  AX * DY +
  CX * DY +
  AX * CY -
  CX * CY.

Definition tDivider : num :=
  BX * DY -
  AX * DY -
  BX * CY +
  AX * CY -
  BY * DX +
  AY * DX +
  BY * CX -
  AY * CX.

Definition uNumerator : num :=
  CX * BY -
  AX * BY -
  CX * AY +
  AX * AY -
  CY * BX +
  AY * BX +
  CY * AX -
  AY * AX.

Definition uDivider : num :=
  DY * BX -
  CY * BX -
  DY * AX +
  CY * AX -
  DX * BY +
  CX * BY +
  DX * AY -
  CX * AY.

(** The constants [t] and [u] of the code:
    [const t = tNumerator / tDivider] and
    [const u = uNumerator / uDivider] *)
Definition tCoefficient : num := tNumerator / tDivider.
Definition uCoefficient : num := uNumerator / uDivider.

(** [static calculateIntersection(AB, CD)]; [null] is [None]. *)
Definition calculateIntersection : option (Point num) :=
  let t := tCoefficient in
  let u := uCoefficient in
  if (t >=? zero) && (t <=? one) && (u >=? zero) && (u <=? one)
     && (tDivider !== zero)
  then Some {| x := lerp (x (fst AB)) (x (snd AB)) t;
               y := lerp (y (fst AB)) (y (snd AB)) t |}
  else None.
End Coefficients.
End Mathy.

(** [[{x: ax, y: ay}, {x: bx, y: by}]] *)
Definition seg {num : Type} (ax ay bx b_y : num) : Segment num :=
  (mkPoint ax ay, mkPoint bx b_y).

Definition fseg : float -> float -> float -> float -> Segment float := seg.
Definition qseg : Q -> Q -> Q -> Q -> Segment Q := seg.
Arguments fseg (_ _ _ _)%_float.
Arguments qseg (_ _ _ _)%_Q.
Definition fpoint : float -> float -> Point float := @mkPoint float.
Arguments fpoint (_ _)%_float.

(** ** The acceptance test, as the specification words it *)

Section AcceptanceTest.
Context {num : Type} `{Number num}.
Local Open Scope num_scope.

(** [v] lies in [[0, 1]], both ends included. *)
Definition in_unit_interval (v : num) : bool := (zero <=? v) && (v <=? one).

(** The divider of [t] is not zero and both coefficients lie in [[0, 1]]. *)
Definition accepted (AB CD : Segment num) : bool :=
  (tDivider AB CD !== zero)
  && in_unit_interval (tCoefficient AB CD)
  && in_unit_interval (uCoefficient AB CD).

(** [v] is one of the two ends of [[0, 1]]. *)
Definition at_boundary (v : num) : bool := eqb v zero || eqb v one.

(** The point of [AB] at the coefficient [t]. *)
Definition pointAt (AB : Segment num) (t : num) : Point num :=
  {| x := lerp (x (fst AB)) (x (snd AB)) t;
     y := lerp (y (fst AB)) (y (snd AB)) t |}.

(** A function of the eight coordinates, at the end points of two
    segments. *)
Definition at_coordinates {T : Type}
    (f : num -> num -> num -> num -> num -> num -> num -> num -> T)
    (AB CD : Segment num) : T :=
  f (x (fst AB)) (y (fst AB)) (x (snd AB)) (y (snd AB))
    (x (fst CD)) (y (fst CD)) (x (snd CD)) (y (snd CD)).
End AcceptanceTest.

(** ** The formulas of the specification *)

Section SpecFormulas.
Context {num : Type} `{Number num}.
Local Open Scope num_scope.

(** The formula block of the specification, term by term. *)
Definition spec_tNumerator (AX AY BX BY CX CY DX DY : num) : num :=
  AY * DX - CY * DX - AY * CX + CY * CX - AX * DY + CX * DY + AX * CY - CX * CY.
Definition spec_tDivider (AX AY BX BY CX CY DX DY : num) : num :=
  BX * DY - AX * DY - BX * CY + AX * CY - BY * DX + AY * DX + BY * CX - AY * CX.
Definition spec_uNumerator (AX AY BX BY CX CY DX DY : num) : num :=
  CX * BY - AX * BY - CX * AY + AX * AY - CY * BX + AY * BX + CY * AX - AY * AX.
Definition spec_uDivider (AX AY BX BY CX CY DX DY : num) : num :=
  DY * BX - CY * BX - DY * AX + CY * AX - DX * BY + CX * BY + DX * AY - CX * AY.
Definition spec_t (AX AY BX BY CX CY DX DY : num) : num :=
  spec_tNumerator AX AY BX BY CX CY DX DY / spec_tDivider AX AY BX BY CX CY DX DY.
Definition spec_u (AX AY BX BY CX CY DX DY : num) : num :=
  spec_uNumerator AX AY BX BY CX CY DX DY / spec_uDivider AX AY BX BY CX CY DX DY.
End SpecFormulas.

(** [+0] or NaN: what is left when a binary64 value is subtracted from
    itself. *)
Definition zero_or_nan (f : float) : Prop :=
  Prim2SF f = S754_zero false \/ Prim2SF f = S754_nan.

(** ** The inputs the specification names *)

(** Two segments that cross within their extents. *)
Definition crossing_AB : Segment float := fseg 0 0 10 10.
Definition crossing_CD : Segment float := fseg 0 10 10 0.

(** Two parallel segments that are not collinear. *)
Definition parallel_AB : Segment float := fseg 0 0 10 0.
Definition parallel_CD : Segment float := fseg 0 5 10 5.

(** Two segments that share exactly one end point. *)
Definition touching_AB : Segment float := fseg 0 0 10 10.
Definition touching_CD : Segment float := fseg 10 10 20 0.

(** Two collinear segments that share exactly one end point. *)
Definition collinear_AB : Segment float := fseg 0 0 1 1.
Definition collinear_CD : Segment float := fseg 1 1 2 2.

(** Two parallel segments that are not collinear, far enough from the
    origin for the products of [tDivider] to be rounded. *)
Definition far_parallel_AB : Segment float :=
  fseg 100000000 100000000 100000001 100000001.
Definition far_parallel_CD : Segment float :=
  fseg 100000000 100000001 100000001 100000002.

(** Two segments that are not parallel and share exactly one end point.
    A decimal literal denotes the nearest binary64 value, as it does in
    JavaScript. *)
#[local] Set Warnings "-inexact-float".
Definition slanted_touching_AB : Segment float := fseg (-2.5) 7.1 4.8 (-9.8).
Definition slanted_touching_CD : Segment float := fseg 4.8 (-9.8) (-5.6) (-7).
#[local] Set Warnings "inexact-float".

(** Two crossing segments whose coefficients are not binary64 values. *)
Definition slanted_AB : Segment float := fseg 0 0 10 1.
Definition slanted_CD : Segment float := fseg 0 1 3 0.

(** Two parallel segments, one of them long enough for a partial sum of
    the dividers to be rounded: [2^54 - 1] is not a binary64 value. *)
Definition rounding_AB : Segment float := fseg 1 0 0x1p54 0.
Definition rounding_CD : Segment float := fseg 1 1 0.5 1.

(** One of the eight coordinates is a NaN. *)
Definition has_nan (AB CD : Segment float) : bool :=
  is_nan (x (fst AB)) || is_nan (y (fst AB))
  || is_nan (x (snd AB)) || is_nan (y (snd AB))
  || is_nan (x (fst CD)) || is_nan (y (fst CD))
  || is_nan (x (snd CD)) || is_nan (y (snd CD)).

(** ** Facts of binary64 arithmetic *)

Module Float64.
Local Open Scope float_scope.

Lemma Prim2SF_zero : Prim2SF 0 = S754_zero false.
Proof. reflexivity. Qed.

Lemma Prim2SF_one : Prim2SF 1 = S754_finite false 4503599627370496 (-52).
Proof. reflexivity. Qed.

Lemma Prim2SF_infinity : Prim2SF infinity = S754_infinity false.
Proof. reflexivity. Qed.

(** [f === 0] holds of the two zeros only. *)
Lemma eqb_zero_inv (f : float) :
  (f =? 0) = true -> exists s, Prim2SF f = S754_zero s.
Proof.
  rewrite eqb_spec, Prim2SF_zero.
  destruct (Prim2SF f) as [s | s | | s m e]; cbn.
  - intros _. now exists s.
  - destruct s; discriminate.
  - discriminate.
  - destruct s; discriminate.
Qed.

Lemma is_nan_spec (f : float) :
  is_nan f = true <-> Prim2SF f = S754_nan.
Proof.
  unfold is_nan. rewrite eqb_spec.
  destruct (Prim2SF f) as [s | s | | s m e]; cbn.
  - split; discriminate.
  - destruct s; split; discriminate.
  - split; reflexivity.
  - unfold SFeqb, SFcompare.
    rewrite Z.compare_refl, Pos.compare_cont_refl.
    destruct s; split; discriminate.
Qed.

Lemma is_infinity_spec (f : float) :
  is_infinity f = true <-> exists s, Prim2SF f = S754_infinity s.
Proof.
  unfold is_infinity. rewrite eqb_spec, abs_spec, Prim2SF_infinity.
  destruct (Prim2SF f) as [s | s | | s m e]; cbn.
  - split; [discriminate | intros [s' E]; discriminate].
  - split; [now exists s | reflexivity].
  - split; [discriminate | intros [s' E]; discriminate].
  - split; [discriminate | intros [s' E]; discriminate].
Qed.

(** A quotient by a zero is an infinity or a NaN... *)
Lemma div_by_zero (n d : float) :
  (d =? 0) = true -> is_nan (n / d) || is_infinity (n / d) = true.
Proof.
  intros Hd. destruct (eqb_zero_inv Hd) as [s Hs].
  apply orb_true_iff.
  assert (E : Prim2SF (n / d) = SF64div (Prim2SF n) (S754_zero s))
    by (rewrite div_spec; now rewrite Hs).
  destruct (Prim2SF n) as [sn | sn | | sn mn en]; cbn in E.
  - left. now apply is_nan_spec.
  - right. apply is_infinity_spec. eauto.
  - left. now apply is_nan_spec.
  - right. apply is_infinity_spec. eauto.
Qed.

(** ... and so lies outside [[0, 1]]. *)
Lemma div_by_zero_out_of_range (n d : float) :
  (d =? 0) = true -> (0 <=? n / d) && (n / d <=? 1) = false.
Proof.
  intros Hd. destruct (eqb_zero_inv Hd) as [s Hs].
  rewrite !leb_spec, div_spec, Hs, Prim2SF_zero, Prim2SF_one.
  destruct (Prim2SF n) as [sn | sn | | sn mn en]; cbn;
    try reflexivity; destruct (xorb sn s); reflexivity.
Qed.

(** A NaN is below nothing. *)
Lemma nan_not_geb (f g : float) : is_nan f = true -> (g <=? f) = false.
Proof.
  intros Hf. apply is_nan_spec in Hf. rewrite leb_spec, Hf.
  unfold SFleb, SFcompare. now destruct (Prim2SF g).
Qed.

Lemma div_nan_r (n d : float) : is_nan d = true -> is_nan (n / d) = true.
Proof.
  intros Hd. apply is_nan_spec in Hd. apply is_nan_spec.
  rewrite div_spec, Hd. now destruct (Prim2SF n).
Qed.

(** Multiplication commutes, bit for bit. *)
Lemma mul_comm (a b : float) : a * b = b * a.
Proof.
  apply Prim2SF_inj. rewrite !mul_spec.
  destruct (Prim2SF a) as [sa | sa | | sa ma ea],
           (Prim2SF b) as [sb | sb | | sb mb eb]; cbn;
    rewrite ?(xorb_comm sa sb); try reflexivity.
  unfold SF64mul, SFmul. now rewrite Pos.mul_comm, Z.add_comm.
Qed.

Lemma cond_Zopp_cancel (s : bool) (m : Z) :
  (cond_Zopp (negb s) m + cond_Zopp s m = 0)%Z.
Proof. destruct s; cbn; lia. Qed.

Lemma sub_diag (a : float) : zero_or_nan (a - a).
Proof.
  unfold zero_or_nan. rewrite sub_spec.
  destruct (Prim2SF a) as [s | s | | s m e].
  - left. now destruct s.
  - right. now destruct s.
  - now right.
  - left. unfold SF64sub, SFsub. cbv zeta. now rewrite Z.sub_diag.
Qed.

Lemma sub_add_cancel (z a : float) : zero_or_nan z -> zero_or_nan (z - a + a).
Proof.
  unfold zero_or_nan. rewrite add_spec, sub_spec.
  intros [-> | ->]; [| now right].
  destruct (Prim2SF a) as [s | s | | s m e].
  - left. now destruct s.
  - right. now destruct s.
  - now right.
  - left. unfold SF64sub, SF64add, SFsub, SFadd. cbv zeta.
    now rewrite cond_Zopp_cancel.
Qed.

Lemma add_sub_cancel (z a : float) : zero_or_nan z -> zero_or_nan (z + a - a).
Proof.
  unfold zero_or_nan. rewrite sub_spec, add_spec.
  intros [-> | ->]; [| now right].
  destruct (Prim2SF a) as [s | s | | s m e].
  - left. now destruct s.
  - right. now destruct s.
  - now right.
  - left. unfold SF64sub, SF64add, SFsub, SFadd. cbv zeta.
    now rewrite Z.sub_diag.
Qed.

Lemma zero_or_nan_cases (f : float) :
  zero_or_nan f -> (f =? 0) = true \/ is_nan f = true.
Proof.
  intros [E | E].
  - left. now rewrite eqb_spec, E, Prim2SF_zero.
  - right. now apply is_nan_spec.
Qed.
End Float64.

(** ** The acceptance test, for any arithmetic *)

Section Acceptance.
Context {num : Type} `{Number num}.
Local Open Scope num_scope.

Lemma guard_accepted (AB CD : Segment num) :
  (tCoefficient AB CD >=? zero) && (tCoefficient AB CD <=? one)
  && (uCoefficient AB CD >=? zero) && (uCoefficient AB CD <=? one)
  && (tDivider AB CD !== zero) = accepted AB CD.
Proof.
  unfold accepted, in_unit_interval, geb.
  destruct (tDivider AB CD !== zero),
           (zero <=? tCoefficient AB CD), (tCoefficient AB CD <=? one),
           (zero <=? uCoefficient AB CD), (uCoefficient AB CD <=? one);
    reflexivity.
Qed.

Lemma calculateIntersection_accepted (AB CD : Segment num) :
  calculateIntersection AB CD =
  if accepted AB CD then Some (pointAt AB (tCoefficient AB CD)) else None.
Proof.
  unfold calculateIntersection. cbv zeta. now rewrite guard_accepted.
Qed.

Lemma calculateIntersection_some_iff (AB CD : Segment num) :
  calculateIntersection AB CD <> None <-> accepted AB CD = true.
Proof.
  rewrite calculateIntersection_accepted.
  destruct (accepted AB CD); split; try easy.
Qed.

Lemma accepted_iff (AB CD : Segment num) :
  accepted AB CD = true <->
  (tDivider AB CD !== zero) = true
  /\ in_unit_interval (tCoefficient AB CD) = true
  /\ in_unit_interval (uCoefficient AB CD) = true.
Proof.
  unfold accepted. rewrite !andb_true_iff. tauto.
Qed.

Lemma zero_divider_none (AB CD : Segment num) :
  eqb (tDivider AB CD) zero = true -> calculateIntersection AB CD = None.
Proof.
  intros E. rewrite calculateIntersection_accepted.
  unfold accepted, neqb. now rewrite E.
Qed.
End Acceptance.

(** ** Facts of exact arithmetic *)

Module Exact.
Local Open Scope Q_scope.

Ltac polynomials :=
  unfold tCoefficient, uCoefficient, tNumerator, tDivider, uNumerator, uDivider, lerp in *;
  cbv beta iota delta [add sub mul div exactQ x y fst snd] in *.

Ltac coordinates AB CD :=
  destruct AB as [[ax ay] [bx b_y]], CD as [[cx cy] [dx dy]]; polynomials.

(** The two dividers are one polynomial. *)
Lemma uDivider_tDivider (AB CD : Segment Q) : uDivider AB CD == tDivider AB CD.
Proof. coordinates AB CD. ring. Qed.

(** With [A = B] every product of the divider comes twice, with opposite
    signs. *)
Lemma degenerate_divider_zero (P : Point Q) (CD : Segment Q) : tDivider (P, P) CD == 0.
Proof.
  destruct P as [px py], CD as [[cx cy] [dx dy]]. polynomials. ring.
Qed.

(** At the coefficients the code computes, the two interpolations meet. *)
Lemma interpolations_meet (AB CD : Segment Q) :
  ~ tDivider AB CD == 0 ->
  lerp (x (fst AB)) (x (snd AB)) (tCoefficient AB CD)
    == lerp (x (fst CD)) (x (snd CD)) (uCoefficient AB CD)
  /\ lerp (y (fst AB)) (y (snd AB)) (tCoefficient AB CD)
    == lerp (y (fst CD)) (y (snd CD)) (uCoefficient AB CD).
Proof.
  coordinates AB CD. intros N.
  split; field; intros E; apply N; rewrite <- E; ring.
Qed.
End Exact.

(** ** The program at binary64 *)

Module Binary64.
Import Float64.
Local Open Scope float_scope.

Ltac float_ops :=
  cbv beta iota delta [add sub mul div leb eqb zero one float64 x y fst snd] in *.

Lemma nonzero_iff (f : float) : (f !== zero)%num = true <-> (f =? 0) = false.
Proof. unfold neqb. float_ops. apply negb_true_iff. Qed.

(** The ends of [[0, 1]] belong to it: the two zeros and 1 pass both
    comparisons. *)
Lemma boundary_in_unit_interval (v : float) :
  at_boundary v = true -> in_unit_interval v = true.
Proof.
  unfold at_boundary, in_unit_interval. float_ops.
  intros H. apply orb_true_iff in H. destruct H as [Z | O].
  - destruct (eqb_zero_inv Z) as [s Hs].
    rewrite !leb_spec, Hs, Prim2SF_zero, Prim2SF_one. reflexivity.
  - rewrite eqb_spec in O. rewrite !leb_spec.
    rewrite Prim2SF_zero. rewrite Prim2SF_one in O |- *.
    destruct (Prim2SF v) as [s | s | | s m e]; try (destruct s; discriminate O);
      try discriminate O.
    destruct s; [discriminate O |].
    change (SFleb (S754_zero false) (S754_finite false m e)) with true.
    unfold SFleb. unfold SFeqb in O.
    now destruct (SFcompare (S754_finite false m e)
                    (S754_finite false 4503599627370496 (-52))) as [[| |] |].
Qed.

(** A zero [uDivider] puts [u] outside [[0, 1]]. *)
Lemma uDivider_zero_rejected (AB CD : Segment float) :
  (uDivider AB CD =? 0) = true -> in_unit_interval (uCoefficient AB CD) = false.
Proof.
  intros E. unfold in_unit_interval, uCoefficient. float_ops.
  now apply div_by_zero_out_of_range.
Qed.

(** The eight products of [uDivider] are those of [tDivider], added in
    another order. *)
Lemma uDivider_products (AB CD : Segment float) :
  uDivider AB CD =
  at_coordinates (fun AX AY BX BY CX CY DX DY =>
    BX * DY - BX * CY - AX * DY + AX * CY - BY * DX + BY * CX + AY * DX - AY * CX)
    AB CD.
Proof.
  destruct AB as [[ax ay] [bx b_y]], CD as [[cx cy] [dx dy]].
  unfold uDivider, at_coordinates. float_ops.
  now rewrite (mul_comm dy bx), (mul_comm cy bx), (mul_comm dy ax), (mul_comm cy ax),
    (mul_comm dx b_y), (mul_comm cx b_y), (mul_comm dx ay), (mul_comm cx ay).
Qed.

(** With [A = B] the products of [tDivider] cancel in pairs, as far as
    they are finite. *)
Lemma degenerate_divider_cancels (P : Point float) (CD : Segment float) :
  zero_or_nan (tDivider (P, P) CD).
Proof.
  destruct P as [px py], CD as [[cx cy] [dx dy]].
  unfold tDivider. float_ops.
  apply add_sub_cancel, sub_add_cancel, sub_add_cancel, sub_diag.
Qed.

Lemma nan_divider_rejected (AB CD : Segment float) :
  is_nan (tDivider AB CD) = true -> in_unit_interval (tCoefficient AB CD) = false.
Proof.
  intros E. unfold in_unit_interval, tCoefficient. float_ops.
  rewrite (@nan_not_geb (tNumerator AB CD / tDivider AB CD) 0); [reflexivity |].
  now apply div_nan_r.
Qed.

Lemma degenerate_none (P : Point float) (CD : Segment float) :
  calculateIntersection (P, P) CD = None.
Proof.
  destruct (zero_or_nan_cases (degenerate_divider_cancels P CD)) as [E | E].
  - now apply zero_divider_none.
  - rewrite calculateIntersection_accepted. unfold accepted.
    now rewrite (nan_divider_rejected _ _ E), andb_false_r.
Qed.
End Binary64.

(** ** The properties of the specification *)

Unset Implicit Arguments.

(** C1, as amended.  [calculateIntersection] returns a point (rather than
    [null]) if and only if [tDivider] is not zero and both coefficients
    lie in [[0, 1]], the ends included: whenever [tDivider] is not zero and
    [t] and [u] are each 0 or 1, the point of [AB] at [t] is returned.  For
    the segments (0,0)-(10,10) and (10,10)-(20,0), which share one end
    point, [t] is 1, [u] is the zero [-0] and the shared point (10,10) is
    returned.  Sharing exactly one end point is not enough: the collinear
    (0,0)-(1,1) and (1,1)-(2,2) have a zero [tDivider] and give [null], and
    for (-2.5,7.1)-(4.8,-9.8) and (4.8,-9.8)-(-5.6,-7), which are not
    parallel ([tDivider] is below -155), [t] is 1, [u] is rounded below 0
    and the result is [null]. *)
Theorem calculateIntersection_point_iff :
  (forall AB CD : Segment float,
      (exists p, calculateIntersection AB CD = Some p) <->
      (tDivider AB CD =? 0)%float = false
      /\ in_unit_interval (tCoefficient AB CD) = true
      /\ in_unit_interval (uCoefficient AB CD) = true)
  /\ (in_unit_interval 0%float = true /\ in_unit_interval 1%float = true)
  /\ (forall AB CD : Segment float,
      (tDivider AB CD =? 0)%float = false ->
      at_boundary (tCoefficient AB CD) = true ->
      at_boundary (uCoefficient AB CD) = true ->
      calculateIntersection AB CD = Some (pointAt AB (tCoefficient AB CD)))
  /\ (tCoefficient touching_AB touching_CD = 1%float
      /\ uCoefficient touching_AB touching_CD = (-0)%float
      /\ calculateIntersection touching_AB touching_CD = Some (fpoint 10 10))
  /\ (snd collinear_AB = fst collinear_CD
      /\ tDivider collinear_AB collinear_CD = 0%float
      /\ calculateIntersection collinear_AB collinear_CD = None)
  /\ (snd slanted_touching_AB = fst slanted_touching_CD
      /\ (tDivider slanted_touching_AB slanted_touching_CD <? -155)%float = true
      /\ (tDivider slanted_touching_AB slanted_touching_CD =? 0)%float = false
      /\ tCoefficient slanted_touching_AB slanted_touching_CD = 1%float
      /\ (uCoefficient slanted_touching_AB slanted_touching_CD <? 0)%float = true
      /\ calculateIntersection slanted_touching_AB slanted_touching_CD = None).
Proof.
  split; [| split; [| split; [| split; [| split]]]].
  - intros AB CD. rewrite <- Binary64.nonzero_iff, <- accepted_iff.
    rewrite calculateIntersection_accepted.
    destruct (accepted AB CD); split; eauto; try discriminate.
    intros [p E]. discriminate E.
  - split; reflexivity.
  - intros AB CD D T U. rewrite calculateIntersection_accepted.
    apply Binary64.nonzero_iff in D.
    apply Binary64.boundary_in_unit_interval in T, U.
    now rewrite (proj2 (accepted_iff AB CD) (conj D (conj T U))).
  - repeat split; reflexivity.
  - repeat split; reflexivity.
  - repeat split; reflexivity.
Qed.

Lemma calculateIntersection_point_iff_witness :
  exists p, calculateIntersection crossing_AB crossing_CD = Some p.
Proof.
  apply (proj1 calculateIntersection_point_iff crossing_AB crossing_CD).
  repeat split; reflexivity.
Defined.

(** C1, as stated, fails: the collinear segments (0,0)-(1,1) and
    (1,1)-(2,2) share exactly the end point (1,1), their [tDivider] is zero
    and the result is [null]. *)
Lemma collinear_touching_none :
  snd collinear_AB = fst collinear_CD
  /\ (x (fst collinear_AB) =? x (snd collinear_CD))%float = false
  /\ tDivider collinear_AB collinear_CD = 0%float
  /\ calculateIntersection collinear_AB collinear_CD = None.
Proof. repeat split; reflexivity. Qed.

(** C2, as amended.  When [tDivider] is zero [calculateIntersection]
    returns [null], whatever [t] and [u] are; for the parallel segments
    (0,0)-(10,0) and (0,5)-(10,5) [tDivider] is zero and the result is
    [null].  Not every pair of parallel segments has a zero [tDivider]: for
    (1e8,1e8)-(1e8+1,1e8+1) and (1e8,1e8+1)-(1e8+1,1e8+2) it is rounded to
    2 and the point (1e8,1e8) is returned. *)
Theorem zero_tDivider_none :
  (forall AB CD : Segment float,
      (tDivider AB CD =? 0)%float = true -> calculateIntersection AB CD = None)
  /\ (tDivider parallel_AB parallel_CD = 0%float
      /\ calculateIntersection parallel_AB parallel_CD = None)
  /\ (tDivider far_parallel_AB far_parallel_CD = 2%float
      /\ calculateIntersection far_parallel_AB far_parallel_CD
         = Some (fpoint 100000000 100000000)).
Proof.
  split; [| split; split; reflexivity].
  intros AB CD E. now apply zero_divider_none.
Qed.

Lemma zero_tDivider_none_witness :
  (tDivider parallel_AB parallel_CD =? 0)%float = true
  /\ calculateIntersection parallel_AB parallel_CD = None.
Proof.
  split; [reflexivity |].
  apply (proj1 zero_tDivider_none parallel_AB parallel_CD). reflexivity.
Defined.

(** C2, as stated, fails: the segments (1e8,1e8)-(1e8+1,1e8+1) and
    (1e8,1e8+1)-(1e8+1,1e8+2) are parallel (both have the direction (1,1))
    and not collinear ([CD] is [AB] moved by (0,1)); their [tDivider] is
    2, [t] and [u] are 0, and the point (1e8,1e8) is returned. *)
Lemma far_parallel_segments_meet :
  (x (snd far_parallel_AB) - x (fst far_parallel_AB) = 1
   /\ y (snd far_parallel_AB) - y (fst far_parallel_AB) = 1
   /\ x (snd far_parallel_CD) - x (fst far_parallel_CD) = 1
   /\ y (snd far_parallel_CD) - y (fst far_parallel_CD) = 1
   /\ x (fst far_parallel_CD) - x (fst far_parallel_AB) = 0
   /\ y (fst far_parallel_CD) - y (fst far_parallel_AB) = 1)%float
  /\ tDivider far_parallel_AB far_parallel_CD = 2%float
  /\ tCoefficient far_parallel_AB far_parallel_CD = 0%float
  /\ uCoefficient far_parallel_AB far_parallel_CD = 0%float
  /\ calculateIntersection far_parallel_AB far_parallel_CD
     = Some (fpoint 100000000 100000000).
Proof. repeat split; reflexivity. Qed.

(** C3.  The numerators and dividers the code computes are the four
    eight-term expressions of the specification's formula block, [t] and
    [u] are their quotients, and the result of [calculateIntersection] is
    decided by and computed from these. *)
Theorem coefficients_follow_spec (AB CD : Segment float) :
  tNumerator AB CD = at_coordinates spec_tNumerator AB CD
  /\ tDivider AB CD = at_coordinates spec_tDivider AB CD
  /\ uNumerator AB CD = at_coordinates spec_uNumerator AB CD
  /\ uDivider AB CD = at_coordinates spec_uDivider AB CD
  /\ tCoefficient AB CD = at_coordinates spec_t AB CD
  /\ uCoefficient AB CD = at_coordinates spec_u AB CD
  /\ calculateIntersection AB CD =
     if in_unit_interval (at_coordinates spec_t AB CD)
        && in_unit_interval (at_coordinates spec_u AB CD)
        && negb (at_coordinates spec_tDivider AB CD =? 0)%float
     then Some (pointAt AB (at_coordinates spec_t AB CD))
     else None.
Proof.
  repeat split. rewrite calculateIntersection_accepted.
  unfold accepted, neqb.
  change (at_coordinates spec_t AB CD) with (tCoefficient AB CD).
  change (at_coordinates spec_u AB CD) with (uCoefficient AB CD).
  change (at_coordinates spec_tDivider AB CD) with (tDivider AB CD).
  change (eqb (tDivider AB CD) zero) with (tDivider AB CD =? 0)%float.
  destruct (tDivider AB CD =? 0)%float,
           (in_unit_interval (tCoefficient AB CD)),
           (in_unit_interval (uCoefficient AB CD)); reflexivity.
Qed.

(** C4.  When the intersection is accepted ([tDivider] is not zero, [t] and
    [u] lie in [[0, 1]]) the point returned is
    [{x: lerp(A.x, B.x, t), y: lerp(A.y, B.y, t)}]: the interpolation along
    [AB] with [t], not the one along [CD] with [u].  For (0,0)-(10,1) and
    (0,1)-(3,0) the two interpolations differ in the last bits of [y], and
    the one along [AB] is returned. *)
Theorem accepted_point_on_AB :
  (forall AB CD : Segment float,
      (tDivider AB CD =? 0)%float = false ->
      in_unit_interval (tCoefficient AB CD) = true ->
      in_unit_interval (uCoefficient AB CD) = true ->
      calculateIntersection AB CD =
      Some {| x := lerp (x (fst AB)) (x (snd AB)) (tCoefficient AB CD);
              y := lerp (y (fst AB)) (y (snd AB)) (tCoefficient AB CD) |})
  /\ (calculateIntersection slanted_AB slanted_CD =
      Some (fpoint 0x1.2762762762763p+1 0x1.d89d89d89d89ep-3)
      /\ pointAt slanted_CD (uCoefficient slanted_AB slanted_CD) =
         fpoint 0x1.2762762762763p+1 0x1.d89d89d89d89cp-3).
Proof.
  split; [| split; reflexivity].
  intros AB CD D T U. rewrite calculateIntersection_accepted.
  apply Binary64.nonzero_iff in D.
  now rewrite (proj2 (accepted_iff AB CD) (conj D (conj T U))).
Qed.

Lemma accepted_point_on_AB_witness :
  calculateIntersection touching_AB touching_CD =
  Some {| x := lerp 0%float 10%float (tCoefficient touching_AB touching_CD);
          y := lerp 0%float 10%float (tCoefficient touching_AB touching_CD) |}.
Proof.
  apply (proj1 accepted_point_on_AB touching_AB touching_CD); reflexivity.
Defined.

(** C5.  [lerp(a, b, t)] is [a + (b - a) * t] for all numbers, with no
    restriction on [t]; [lerp(0, 10, 0.5)] is 5, [lerp(0, 10, 0)] is 0,
    [lerp(0, 10, 1)] is 10 and [lerp(0, 10, 2)] is 20. *)
Theorem lerp_formula :
  (forall a b t : float, lerp a b t = (a + (b - a) * t)%float)
  /\ lerp 0%float 10%float 0.5%float = 5%float
  /\ lerp 0%float 10%float 0%float = 0%float
  /\ lerp 0%float 10%float 1%float = 10%float
  /\ lerp 0%float 10%float 2%float = 20%float.
Proof. repeat split. Qed.

(** C6.  For the crossing segments (0,0)-(10,10) and (0,10)-(10,0),
    [calculateIntersection] returns the point (5,5). *)
Theorem crossing_segments_meet :
  calculateIntersection crossing_AB crossing_CD = Some (fpoint 5 5).
Proof. reflexivity. Qed.

(** C7.  When [uDivider] is zero and [tDivider] is not,
    [calculateIntersection] returns [null]: no test of [uDivider] is
    made, [u] is an infinity or a NaN, and the test that [u] lies in
    [[0, 1]] fails. *)
Theorem zero_uDivider_none (AB CD : Segment float) :
  (uDivider AB CD =? 0)%float = true ->
  (tDivider AB CD =? 0)%float = false ->
  is_nan (uCoefficient AB CD) || is_infinity (uCoefficient AB CD) = true
  /\ in_unit_interval (uCoefficient AB CD) = false
  /\ calculateIntersection AB CD = None.
Proof.
  intros U _. split; [| split].
  - now apply Float64.div_by_zero.
  - now apply Binary64.uDivider_zero_rejected.
  - rewrite calculateIntersection_accepted. unfold accepted.
    now rewrite (Binary64.uDivider_zero_rejected U), andb_false_r.
Qed.

(** For (1,0)-(2^54,0) and (1,1)-(0.5,1) [tDivider] is rounded to 1,
    [uDivider] to 0, [t] is 0.5 and [u] is [-Infinity]. *)
Lemma zero_uDivider_none_witness :
  (uDivider rounding_AB rounding_CD =? 0)%float = true
  /\ (tDivider rounding_AB rounding_CD =? 0)%float = false
  /\ in_unit_interval (tCoefficient rounding_AB rounding_CD) = true
  /\ uCoefficient rounding_AB rounding_CD = neg_infinity
  /\ calculateIntersection rounding_AB rounding_CD = None.
Proof.
  refine (conj eq_refl (conj eq_refl (conj eq_refl (conj eq_refl _)))).
  apply (zero_uDivider_none rounding_AB rounding_CD); reflexivity.
Defined.

(** C8, as amended.  When [AB] is degenerate ([A == B]) the value of
    [tDivider] does not depend on the orientation of [CD]: over exact
    arithmetic it is zero for every [CD]; at binary64 it is zero, or NaN
    when a product overflows, and never another number; in both
    [calculateIntersection] returns [null] for every [CD]. *)
Theorem degenerate_AB_tDivider :
  (forall (P : Point Q) (CD : Segment Q),
      (tDivider (P, P) CD == 0)%Q /\ calculateIntersection (P, P) CD = None)
  /\ (forall (P : Point float) (CD : Segment float),
      ((tDivider (P, P) CD =? 0)%float = true \/ is_nan (tDivider (P, P) CD) = true)
      /\ calculateIntersection (P, P) CD = None)
  /\ is_nan (tDivider (fseg 0x1p700 0 0x1p700 0) (fseg 0 0 0 0x1p700)) = true.
Proof.
  split; [| split; [| reflexivity]].
  - intros P CD. split; [apply Exact.degenerate_divider_zero |].
    apply zero_divider_none. apply Qeq_bool_iff, Exact.degenerate_divider_zero.
  - intros P CD. split; [| apply Binary64.degenerate_none].
    apply Float64.zero_or_nan_cases, Binary64.degenerate_divider_cancels.
Qed.

(** C8, as stated, fails: with [A == B] the divider is zero for every [CD]
    over exact arithmetic, and at binary64 for (3,4)-(3,4) whether [CD] is
    horizontal, vertical, diagonal or slanted. *)
Lemma degenerate_AB_tDivider_zero :
  (forall (P : Point Q) (CD : Segment Q), (tDivider (P, P) CD == 0)%Q)
  /\ tDivider (fseg 3 4 3 4) (fseg 0 0 1 0) = 0%float
  /\ tDivider (fseg 3 4 3 4) (fseg 0 0 0 1) = 0%float
  /\ tDivider (fseg 3 4 3 4) (fseg 0 0 1 1) = 0%float
  /\ tDivider (fseg 3 4 3 4) (fseg 2 7 (-5) 1) = 0%float.
Proof.
  split; [exact Exact.degenerate_divider_zero | repeat split; reflexivity].
Qed.

(** C9.  Over exact arithmetic, when the intersection is accepted
    ([tDivider] is not zero, [t] and [u] lie in [[0, 1]]) the point of [AB]
    at [t] is the point of [CD] at [u]. *)
Theorem interpolations_agree (AB CD : Segment Q) :
  ~ (tDivider AB CD == 0)%Q ->
  in_unit_interval (tCoefficient AB CD) = true ->
  in_unit_interval (uCoefficient AB CD) = true ->
  (lerp (x (fst AB)) (x (snd AB)) (tCoefficient AB CD)
     == lerp (x (fst CD)) (x (snd CD)) (uCoefficient AB CD))%Q
  /\ (lerp (y (fst AB)) (y (snd AB)) (tCoefficient AB CD)
     == lerp (y (fst CD)) (y (snd CD)) (uCoefficient AB CD))%Q.
Proof.
  intros N _ _. now apply Exact.interpolations_meet.
Qed.

Lemma interpolations_agree_witness :
  (lerp 0 10 (tCoefficient (qseg 0 0 10 10) (qseg 0 10 10 0))
     == lerp 0 10 (uCoefficient (qseg 0 0 10 10) (qseg 0 10 10 0)))%Q
  /\ (lerp 0 10 (tCoefficient (qseg 0 0 10 10) (qseg 0 10 10 0))
     == lerp 10 0 (uCoefficient (qseg 0 0 10 10) (qseg 0 10 10 0)))%Q.
Proof.
  apply (interpolations_agree (qseg 0 0 10 10) (qseg 0 10 10 0)).
  - apply Qeq_bool_neq. reflexivity.
  - reflexivity.
  - reflexivity.
Defined.

(** C10, as amended.  Over exact arithmetic [uDivider] equals [tDivider]
    for every input, so one is zero exactly when the other is.  At binary64
    the two are sums of the same eight products, added in different orders. *)
Theorem dividers_same_products :
  (forall AB CD : Segment Q,
      (uDivider AB CD == tDivider AB CD)%Q
      /\ ((uDivider AB CD == 0)%Q <-> (tDivider AB CD == 0)%Q))
  /\ (forall AB CD : Segment float,
      tDivider AB CD =
      at_coordinates (fun AX AY BX BY CX CY DX DY =>
        BX * DY - AX * DY - BX * CY + AX * CY - BY * DX + AY * DX + BY * CX - AY * CX)%float
        AB CD
      /\ uDivider AB CD =
      at_coordinates (fun AX AY BX BY CX CY DX DY =>
        BX * DY - BX * CY - AX * DY + AX * CY - BY * DX + BY * CX + AY * DX - AY * CX)%float
        AB CD).
Proof.
  split.
  - intros AB CD. split; [apply Exact.uDivider_tDivider |].
    now rewrite Exact.uDivider_tDivider.
  - intros AB CD. split; [reflexivity | apply Binary64.uDivider_products].
Qed.

(** C10, as stated, fails at binary64: for (1,0)-(2^54,0) and (1,1)-(0.5,1)
    [tDivider] is 1 and [uDivider] is 0. *)
Lemma dividers_differ :
  tDivider rounding_AB rounding_CD = 1%float
  /\ uDivider rounding_AB rounding_CD = 0%float.
Proof. split; reflexivity. Qed.


(** ** Further properties of the program at binary64 *)

Set Implicit Arguments.

Module Edge.
Import Float64 Binary64.
Local Open Scope float_scope.

(** A NaN operand makes a NaN result. *)
Lemma nan_add_l (a b : float) : is_nan a = true -> is_nan (a + b) = true.
Proof.
  intros H. apply is_nan_spec in H. apply is_nan_spec.
  now rewrite add_spec, H.
Qed.

Lemma nan_add_r (a b : float) : is_nan b = true -> is_nan (a + b) = true.
Proof.
  intros H. apply is_nan_spec in H. apply is_nan_spec.
  rewrite add_spec, H. now destruct (Prim2SF a).
Qed.

Lemma nan_sub_l (a b : float) : is_nan a = true -> is_nan (a - b) = true.
Proof.
  intros H. apply is_nan_spec in H. apply is_nan_spec.
  now rewrite sub_spec, H.
Qed.

Lemma nan_sub_r (a b : float) : is_nan b = true -> is_nan (a - b) = true.
Proof.
  intros H. apply is_nan_spec in H. apply is_nan_spec.
  rewrite sub_spec, H. now destruct (Prim2SF a).
Qed.

Lemma nan_mul_l (a b : float) : is_nan a = true -> is_nan (a * b) = true.
Proof.
  intros H. apply is_nan_spec in H. apply is_nan_spec.
  now rewrite mul_spec, H.
Qed.

Lemma nan_mul_r (a b : float) : is_nan b = true -> is_nan (a * b) = true.
Proof.
  intros H. apply is_nan_spec in H. apply is_nan_spec.
  rewrite mul_spec, H. now destruct (Prim2SF a).
Qed.

Lemma nan_not_leb (f g : float) : is_nan f = true -> (f <=? g) = false.
Proof.
  intros Hf. apply is_nan_spec in Hf. now rewrite leb_spec, Hf.
Qed.

Lemma nan_not_eqb (f g : float) : is_nan f = true -> (f =? g) = false.
Proof.
  intros Hf. apply is_nan_spec in Hf. now rewrite eqb_spec, Hf.
Qed.

(** A value of [[0, 1]] is neither a NaN nor an infinity. *)
Lemma unit_interval_finite (f : float) :
  in_unit_interval f = true -> is_finite f = true.
Proof.
  unfold in_unit_interval, is_finite. float_ops.
  intros H. apply andb_true_iff in H. destruct H as [L U].
  destruct (is_nan f) eqn:N.
  - now rewrite (@nan_not_geb f 0 N) in L.
  - destruct (is_infinity f) eqn:I; [| reflexivity].
    apply is_infinity_spec in I. destruct I as [s I].
    rewrite leb_spec, I in L, U. now destruct s.
Qed.

(** A zero [tDivider] puts [t] outside [[0, 1]]: the test of [tDivider]
    decides nothing that the test of [t] has not decided. *)
Lemma accepted_ranges (AB CD : Segment float) :
  accepted AB CD =
  in_unit_interval (tCoefficient AB CD) && in_unit_interval (uCoefficient AB CD).
Proof.
  unfold accepted, neqb.
  destruct (eqb (tDivider AB CD) zero) eqn:E; [| reflexivity].
  assert (T : in_unit_interval (tCoefficient AB CD) = false).
  { unfold in_unit_interval, tCoefficient. float_ops.
    now apply div_by_zero_out_of_range. }
  now rewrite T.
Qed.

Lemma nan_uDivider_rejected (AB CD : Segment float) :
  is_nan (uDivider AB CD) = true -> in_unit_interval (uCoefficient AB CD) = false.
Proof.
  intros E. unfold in_unit_interval, uCoefficient. float_ops.
  rewrite (@nan_not_geb (uNumerator AB CD / uDivider AB CD) 0); [reflexivity |].
  now apply div_nan_r.
Qed.

Lemma accepted_dividers (AB CD : Segment float) :
  accepted AB CD = true ->
  (tDivider AB CD =? 0) = false /\ is_nan (tDivider AB CD) = false
  /\ (uDivider AB CD =? 0) = false /\ is_nan (uDivider AB CD) = false
  /\ is_finite (tCoefficient AB CD) = true
  /\ is_finite (uCoefficient AB CD) = true.
Proof.
  intros H. apply accepted_iff in H. destruct H as (D & T & U).
  apply nonzero_iff in D.
  repeat split; try assumption; try now apply unit_interval_finite.
  - destruct (is_nan (tDivider AB CD)) eqn:N; [| reflexivity].
    now rewrite (@nan_divider_rejected AB CD N) in T.
  - destruct (uDivider AB CD =? 0) eqn:Z; [| reflexivity].
    now rewrite (@uDivider_zero_rejected AB CD Z) in U.
  - destruct (is_nan (uDivider AB CD)) eqn:N; [| reflexivity].
    now rewrite (@nan_uDivider_rejected AB CD N) in U.
Qed.

Ltac nan_product H :=
  first [apply nan_mul_l; exact H | apply nan_mul_r; exact H].

Ltac nan_sum H :=
  first [ nan_product H
        | apply nan_add_r; nan_product H
        | apply nan_sub_r; nan_product H
        | apply nan_add_l; nan_sum H
        | apply nan_sub_l; nan_sum H ].

(** Every coordinate occurs in a product of [tDivider]. *)
Lemma nan_coordinate_divider (AB CD : Segment float) :
  has_nan AB CD = true -> is_nan (tDivider AB CD) = true.
Proof.
  destruct AB as [[ax ay] [bx b_y]], CD as [[cx cy] [dx dy]].
  unfold has_nan, tDivider. float_ops. rewrite !orb_true_iff.
  intros [[[[[[[H | H] | H] | H] | H] | H] | H] | H]; nan_sum H.
Qed.

Lemma nan_coordinate_none (AB CD : Segment float) :
  has_nan AB CD = true -> calculateIntersection AB CD = None.
Proof.
  intros H. rewrite calculateIntersection_accepted. unfold accepted.
  now rewrite (@nan_divider_rejected AB CD (@nan_coordinate_divider AB CD H)),
    andb_false_r.
Qed.

Lemma is_finite_spec (f : float) :
  is_finite f = true ->
  (exists s, Prim2SF f = S754_zero s) \/ (exists s m e, Prim2SF f = S754_finite s m e).
Proof.
  unfold is_finite. rewrite negb_true_iff, orb_false_iff. intros [N I].
  destruct (Prim2SF f) as [s | s | | s m e] eqn:E; eauto.
  - assert (I' : is_infinity f = true) by (apply is_infinity_spec; eauto).
    congruence.
  - apply is_nan_spec in E. congruence.
Qed.

Lemma SFeqb_refl (s : bool) (m : positive) (e : Z) :
  SFeqb (S754_finite s m e) (S754_finite s m e) = true.
Proof.
  unfold SFeqb, SFcompare. rewrite Z.compare_refl, Pos.compare_cont_refl.
  now destruct s.
Qed.

(** At the coefficient 0 the interpolation is its first end, as long as
    the difference of the ends does not overflow. *)
Lemma lerp_zero (a b : float) :
  is_finite (b - a) = true -> (lerp a b 0 =? a) = true.
Proof.
  intros F. unfold lerp. float_ops.
  assert (A : (exists s, Prim2SF a = S754_zero s)
              \/ (exists s m e, Prim2SF a = S754_finite s m e)).
  { apply is_finite_spec in F. rewrite sub_spec in F.
    destruct (Prim2SF a) as [s | s | | s m e]; eauto;
      destruct (Prim2SF b) as [sb | sb | | sb mb eb];
      destruct F as [[s' F] | (s' & m' & e' & F)]; try discriminate F;
      destruct s, sb; discriminate F. }
  assert (P : exists s, Prim2SF ((b - a) * 0) = S754_zero s).
  { apply is_finite_spec in F. rewrite mul_spec, Prim2SF_zero.
    destruct F as [[s ->] | (s & m & e & ->)]; cbn; eauto. }
  destruct P as [s P]. rewrite eqb_spec, add_spec, P.
  destruct A as [[sa ->] | (sa & m & e & ->)].
  - now destruct sa, s.
  - cbn. apply SFeqb_refl.
Qed.
End Edge.


(** ** Further properties *)

Unset Implicit Arguments.

(** X9.  At binary64 the two range tests decide the result: when
    [tDivider] is zero [t] is an infinity or a NaN, so the test
    [tDivider !== 0] never changes the outcome. *)
Theorem range_tests_decide (AB CD : Segment float) :
  calculateIntersection AB CD =
  if in_unit_interval (tCoefficient AB CD) && in_unit_interval (uCoefficient AB CD)
  then Some (pointAt AB (tCoefficient AB CD))
  else None.
Proof.
  rewrite calculateIntersection_accepted. now rewrite Edge.accepted_ranges.
Qed.

(** X10.  At binary64, when a point is returned neither divider is zero or
    a NaN, and [t] and [u] are finite. *)
Theorem returned_point_well_defined (AB CD : Segment float) (p : Point float) :
  calculateIntersection AB CD = Some p ->
  (tDivider AB CD =? 0)%float = false /\ is_nan (tDivider AB CD) = false
  /\ (uDivider AB CD =? 0)%float = false /\ is_nan (uDivider AB CD) = false
  /\ is_finite (tCoefficient AB CD) = true
  /\ is_finite (uCoefficient AB CD) = true.
Proof.
  intros H. apply Edge.accepted_dividers.
  rewrite calculateIntersection_accepted in H.
  now destruct (accepted AB CD).
Qed.

Lemma returned_point_well_defined_witness :
  (tDivider slanted_AB slanted_CD =? 0)%float = false
  /\ is_nan (tDivider slanted_AB slanted_CD) = false
  /\ (uDivider slanted_AB slanted_CD =? 0)%float = false
  /\ is_nan (uDivider slanted_AB slanted_CD) = false
  /\ is_finite (tCoefficient slanted_AB slanted_CD) = true
  /\ is_finite (uCoefficient slanted_AB slanted_CD) = true.
Proof.
  apply (returned_point_well_defined slanted_AB slanted_CD
           (pointAt slanted_AB (tCoefficient slanted_AB slanted_CD))).
  reflexivity.
Defined.

(** X11.  At binary64, when one of the eight coordinates is a NaN the
    result is [null]. *)
Theorem nan_coordinate_null (AB CD : Segment float) :
  has_nan AB CD = true -> calculateIntersection AB CD = None.
Proof. apply Edge.nan_coordinate_none. Qed.

Lemma nan_coordinate_null_witness :
  calculateIntersection (fseg 0 0 10 nan) (fseg 0 10 10 0) = None.
Proof.
  apply (nan_coordinate_null (fseg 0 0 10 nan) (fseg 0 10 10 0)). reflexivity.
Defined.

(** X12.  At binary64 [lerp(a, b, 0)] is [a] whenever [b - a] is finite
    (neither an overflow nor a NaN). *)
Theorem lerp_at_zero (a b : float) :
  is_finite (b - a)%float = true -> (lerp a b 0 =? a)%float = true.
Proof. apply Edge.lerp_zero. Qed.

Lemma lerp_at_zero_witness : (lerp 3 7 0 =? 3)%float = true.
Proof. apply (lerp_at_zero 3 7)%float. reflexivity. Defined.
